(** * bench_compare_multiple: benchmarking several callables on several
      parameter groups

    A shallow embedding of [bench_compare_multiple]
    (src/bench/bench_compare.py, lines 144-169) and of the logger
    selection of [Benchtool.__init__] (lines 176-181), followed by the
    properties of the benchmarking loop.  The function is taken as it is
    written; the code of the module around it is not modelled.

    The loop has three kinds of effect: it reads the clock
    ([time.time()]), it calls the benchmarked functions, and it prints.
    A run yields them, in the order in which they happen, as one list of
    events; an exception is a second kind of result, and the events that
    happened before it was raised stay in the list. *)

From Stdlib Require Import ZArith String List Ascii DecimalString Bool Lia.
Import ListNotations.
Set Warnings "-register-all".
Local Open Scope string_scope.
Local Open Scope list_scope.

(** ** Python values *)

(** The fragment of Python's values that the benchmarked functions of this
    development take and return: [None], integers and tuples. *)
Inductive value : Type :=
| VNone
| VInt (z : Z)
| VTuple (items : list value).

(** [str(v)], which is what [str.format] substitutes for a replacement
    field without a format specification.  Inside a tuple Python uses
    [repr], which for these values is the same text. *)
Fixpoint str (v : value) : string :=
  match v with
  | VNone => "None"
  | VInt z => NilZero.string_of_int (Z.to_int z)
  | VTuple items =>
      match items with
      | [] => "()"
      | [x] => ("(" ++ str x ++ ",)")%string
      | _ => ("(" ++ String.concat ", " (map str items) ++ ")")%string
      end
  end.

(** ** Exceptions and callables *)

(** The loop has one handler, [except TypeError]: an exception is either a
    [TypeError] (or an instance of a subclass of it) or anything else,
    kept with its class name. *)
Inductive exn : Type :=
| TypeError (msg : string)
| OtherError (cls msg : string).

(** What a call does: it returns a value or raises. *)
Inductive outcome : Type :=
| Return (v : value)
| Raise (e : exn).

(** A callable is a signature (how many positional arguments it takes:
    at least [min_args], at most [max_args], without an upper bound for a
    [*args] parameter) and a body.  The body is run only on argument lists
    that the signature binds. *)
Record callable : Type := {
  min_args : nat;
  max_args : option nat;
  body : list value -> outcome
}.

Definition binds (fn : callable) (args : list value) : bool :=
  (min_args fn <=? length args)%nat &&
  match max_args fn with
  | Some m => (length args <=? m)%nat
  | None => true
  end.

(** Python raises [TypeError] when the arguments do not fit the
    signature; only otherwise does the body run. *)
Definition apply (fn : callable) (args : list value) : outcome :=
  if binds fn args then body fn args
  else Raise (TypeError "arguments do not match the signature").

(** The two call expressions of the loop: [fn( *pg )] and [fn(pg)]. *)
Inductive style : Type :=
| Unpacked
| Whole.

(** The argument list of the call.  [*pg] needs an iterable: of these
    values only a tuple is one. *)
Definition arguments (s : style) (pg : value) : option (list value) :=
  match s with
  | Whole => Some [pg]
  | Unpacked =>
      match pg with
      | VTuple items => Some items
      | _ => None
      end
  end.

Definition call (fn : callable) (s : style) (pg : value) : outcome :=
  match arguments s pg with
  | Some args => apply fn args
  | None => Raise (TypeError "argument after * must be an iterable")
  end.

(** The call raised although the signature had bound the arguments: the
    exception comes from the callable's own code. *)
Definition raised_inside (fn : callable) (s : style) (pg : value) : bool :=
  match arguments s pg with
  | Some args =>
      binds fn args &&
      match body fn args with
      | Raise _ => true
      | Return _ => false
      end
  | None => false
  end.

(** ** Printed lines *)

(** A printed line, kept with the values substituted into its template.
    [exec] is a difference of two clock readings. *)
Inductive line : Type :=
| Title (name : string)
| Ans (name : string) (params : value) (ans : value)
| Time (exec : Z).

Definition tab : string := String (ascii_of_nat 9) "".

Section Templates.

(** The text of a float.  Clock readings are integers here (see
    [clock]), so the text Python prints for the float is left open. *)
Variable float_str : Z -> string.

(** Line 153: the three templates, as functions of the keys they use.
    [str_params] holds every key of a template when the template is
    formatted: 'name' is set at line 155, 'params' at line 158, 'time'
    and 'ans' at line 167. *)
Definition title_str (name : string) : string :=
  ("Testing " ++ name ++ ":")%string.

Definition ans_str (name : string) (params ans : value) : string :=
  (tab ++ name ++ "(" ++ str params ++ ") = " ++ str ans)%string.

Definition time_str (time : Z) : string :=
  (tab ++ "Time = " ++ float_str time)%string.

Definition format_line (l : line) : string :=
  match l with
  | Title name => title_str name
  | Ans name params ans => ans_str name params ans
  | Time exec => time_str exec
  end.

End Templates.

(** ** Effects: clock, calls, standard output, logger *)

(** Line 22: the members of [LOG_LEVELS], one for each severity of the
    [logging] module ([FATAL] and [WARNING] are other names of [CRITICAL]
    and [WARN]). *)
Inductive LOG_LEVELS : Type :=
| CRITICAL | ERROR | WARN | INFO | DEBUG | NOTSET.

(** What can be passed as [logger]: the builtin [print], some other
    callable that takes the message alone, or a [logging.Logger], whose
    [log] method takes a severity and the message. *)
Inductive logger_obj : Type :=
| BuiltinPrint
| PlainCallable
| LeveledLogger.

Inductive event : Type :=
| EClock (t : Z)                                 (* time.time() returned t *)
| ECall (name : string) (s : style) (pg : value) (* fn( *pg ) or fn(pg) was attempted *)
| EPrint (l : line)                              (* print wrote l to standard output *)
| ESink (lvl : option LOG_LEVELS) (l : line).    (* the logger was handed l *)

(** [c k] is what the [k]-th call of [time.time()] returns, in units of
    the clock's resolution; nothing is assumed about it.  Python subtracts
    two floats and rounds; rounding keeps the sign, so [exec] here and in
    Python have the same sign. *)
Definition clock : Type := nat -> Z.

(** What running a piece of code gives: its result, the number of clock
    readings taken so far, and the events it caused. *)
Inductive result (A : Type) : Type :=
| Ok (a : A)
| Exc (e : exn).
Arguments Ok {A} a.
Arguments Exc {A} e.

Record run (A : Type) : Type := Run {
  res : result A;
  reads : nat;
  trace : list event
}.
Arguments Run {A} res reads trace.
Arguments res {A} r.
Arguments reads {A} r.
Arguments trace {A} r.

(** A piece of code, given the clock and the number of readings already
    taken. *)
Definition M (A : Type) : Type := clock -> nat -> run A.

Definition ret {A : Type} (a : A) : M A := fun _ n => Run (Ok a) n [].

Definition bind {A B : Type} (m : M A) (k : A -> M B) : M B :=
  fun c n =>
    match m c n with
    | Run (Ok a) n' t =>
        match k a c n' with
        | Run r n'' t' => Run r n'' (t ++ t')
        end
    | Run (Exc e) n' t => Run (Exc e) n' t
    end.

Declare Scope py_scope.
Delimit Scope py_scope with py.
Notation "x <- m ;; k" := (bind m (fun x => k))
  (at level 61, m at next level, right associativity) : py_scope.
Notation "m ;; k" := (bind m (fun _ => k))
  (at level 61, right associativity) : py_scope.
Local Open Scope py_scope.

(** [try: body except TypeError: handler].  The handler runs after what
    the body did before it raised. *)
Definition try_except_TypeError {A : Type} (body handler : M A) : M A :=
  fun c n =>
    match body c n with
    | Run (Exc (TypeError _)) n' t =>
        match handler c n' with
        | Run r n'' t' => Run r n'' (t ++ t')
        end
    | r => r
    end.

(** [for x in xs: body(x)] *)
Fixpoint for_each {A : Type} (body : A -> M unit) (xs : list A) : M unit :=
  match xs with
  | [] => ret tt
  | x :: rest => body x ;; for_each body rest
  end.

(** [time.time()] *)
Definition time_time : M Z :=
  fun c n => Run (Ok (c n)) (S n) [EClock (c n)].

(** [print(template.format( **str_params ))] *)
Definition print (l : line) : M unit :=
  fun _ n => Run (Ok tt) n [EPrint l].

(** A call expression of the loop: the attempt is noted under the name
    of the callable, whether the call returns or raises. *)
Definition invoke (name : string) (fn : callable) (s : style) (pg : value)
  : M value :=
  fun _ n =>
    match call fn s pg with
    | Return v => Run (Ok v) n [ECall name s pg]
    | Raise e => Run (Exc e) n [ECall name s pg]
    end.

(** ** The source *)

(** Lines 159-166: the timed call and its fallback.
<<
            try:
                start = time.time()
                result = fn( *pg )
                exec = time.time() - start
            except TypeError:
                start = time.time()
                result = fn(pg)
                exec = time.time() - start
>> *)
Definition timed_call (name : string) (fn : callable) (pg : value)
  : M (value * Z) :=
  try_except_TypeError
    (start <- time_time ;;
     result <- invoke name fn Unpacked pg ;;
     stop <- time_time ;;
     ret (result, (stop - start)%Z))
    (start <- time_time ;;
     result <- invoke name fn Whole pg ;;
     stop <- time_time ;;
     ret (result, (stop - start)%Z)).

(** Lines 158-169: the body of the inner loop, for one parameter group. *)
Definition bench_one (name : string) (fn : callable) (pg : value) : M unit :=
  r <- timed_call name fn pg ;;
  print (Ans name pg (fst r)) ;;
  print (Time (snd r)).

(** Lines 154-169: the body of the outer loop, for one item of
    [fn_names]. *)
Definition bench_fn (param_groups : list value) (item : string * callable)
  : M unit :=
  print (Title (fst item)) ;;
  for_each (bench_one (fst item) (snd item)) param_groups.

(** Lines 144-169.  [fn_names] is the keyword dictionary, as the list of
    its items in their order (the names of a dictionary are distinct);
    [logger] is a parameter that the body does not use: every line goes
    to [print]. *)
Definition bench_compare_multiple (logger : logger_obj)
    (param_groups : list value) (fn_names : list (string * callable))
  : M unit :=
  for_each (bench_fn param_groups) fn_names.

(** Lines 176-181, [Benchtool.__init__]: how the class next to the
    function chooses what to call with a message.
<<
        logger = logger or print
        try:
            self._logger = partial(logger.log, log_level or LOG_LEVELS.INFO)
        except AttributeError:
            self._logger = logger
>> *)
Definition Benchtool_logger (logger : option logger_obj)
    (log_level : option LOG_LEVELS) (l : line) : M unit :=
  match logger with
  | None | Some BuiltinPrint => print l
  | Some PlainCallable => fun _ n => Run (Ok tt) n [ESink None l]
  | Some LeveledLogger =>
      let lvl := match log_level with Some lv => lv | None => INFO end in
      fun _ n => Run (Ok tt) n [ESink (Some lvl) l]
  end.

(** ** Reading a trace *)

Definition printed (evs : list event) : list line :=
  flat_map (fun e => match e with EPrint l => [l] | _ => [] end) evs.

Definition delivered (evs : list event) : list (option LOG_LEVELS * line) :=
  flat_map (fun e => match e with ESink lvl l => [(lvl, l)] | _ => [] end) evs.

Definition calls (evs : list event) : list (string * style * value) :=
  flat_map (fun e => match e with ECall n s pg => [(n, s, pg)] | _ => [] end) evs.

(** What a line is, without the values computed during the run. *)
Inductive kind : Type :=
| KTitle (name : string)
| KAns (name : string) (params : value)
| KTime.

Definition kind_of (l : line) : kind :=
  match l with
  | Title name => KTitle name
  | Ans name params _ => KAns name params
  | Time _ => KTime
  end.

(** The lines of a run in which every call returns: for each item of
    [fn_names] a title, then for each parameter group an answer and a
    time. *)
Definition group_layout (name : string) (param_groups : list value) : list kind :=
  flat_map (fun pg => [KAns name pg; KTime]) param_groups.

Definition layout (param_groups : list value) (fn_names : list (string * callable))
  : list kind :=
  flat_map (fun item => KTitle (fst item) :: group_layout (fst item) param_groups)
           fn_names.

Definition prefix {A : Type} (l l' : list A) : Prop := exists rest, l' = l ++ rest.

(** The (name, parameter group) pairs of the answers among some lines,
    and the pairs of a whole run, callable by callable. *)
Definition answered (ks : list kind) : list (string * value) :=
  flat_map (fun k => match k with KAns name pg => [(name, pg)] | _ => [] end) ks.

Definition pairs (param_groups : list value) (fn_names : list (string * callable))
  : list (string * value) :=
  flat_map (fun item => map (fun pg => (fst item, pg)) param_groups) fn_names.

Definition is_ans (k : kind) : bool :=
  match k with KAns _ _ => true | _ => false end.
Definition is_time (k : kind) : bool :=
  match k with KTime => true | _ => false end.

(** The kinds of the lines that a run printed, in order. *)
Definition shape (evs : list event) : list kind := map kind_of (printed evs).

(** The pairs that a run attempted: each attempt starts with the unpacked
    call. *)
Definition attempted (evs : list event) : list (string * value) :=
  flat_map (fun e => match e with ECall n Unpacked pg => [(n, pg)] | _ => [] end) evs.

(** What the pair of a callable and a parameter group ends in: the
    unpacked call decides, unless it raises [TypeError], in which case the
    whole-group call does. *)
Definition verdict (fn : callable) (pg : value) : outcome :=
  match call fn Unpacked pg with
  | Raise (TypeError _) => call fn Whole pg
  | o => o
  end.


(** Every time that was printed comes right after its answer, which comes
    right after a clock reading, which comes right after a call of one of
    the callables on one of the groups, which comes right after the
    previous clock reading; the call returned the answer, and the time is
    the second reading minus the first. *)
Definition bracketed (c : clock) (param_groups : list value)
    (fn_names : list (string * callable)) (evs : list event) : Prop :=
  forall pre t post,
    evs = pre ++ EPrint (Time t) :: post ->
    exists pre' k name fn s pg v,
      pre = pre' ++ [EClock (c k); ECall name s pg; EClock (c (S k));
                     EPrint (Ans name pg v)] /\
      In (name, fn) fn_names /\ In pg param_groups /\
      call fn s pg = Return v /\
      t = (c (S k) - c k)%Z.

(** ** The functions of the scenarios *)

(** [a + b] on these values. *)
Definition py_add (a b : value) : outcome :=
  match a, b with
  | VInt x, VInt y => Return (VInt (x + y))
  | VTuple xs, VTuple ys => Return (VTuple (xs ++ ys))
  | _, _ => Raise (TypeError "unsupported operand type(s) for +")
  end.

(** [sum(seq)]: starts from 0 and adds the items from left to right. *)
Definition py_sum (seq : value) : outcome :=
  match seq with
  | VTuple items =>
      fold_left
        (fun acc x => match acc with Return a => py_add a x | Raise e => Raise e end)
        items (Return (VInt 0))
  | _ => Raise (TypeError "object is not iterable")
  end.

(** Bodies are run on bound argument lists only; this stands in the
    branches for the other lists. *)
Definition unbound : outcome := Raise (OtherError "SystemError" "unbound arguments").

(** [lambda a, b: a + b] *)
Definition add : callable :=
  {| min_args := 2; max_args := Some 2;
     body := fun args =>
       match args with [a; b] => py_add a b | _ => unbound end |}.

(** [lambda seq: sum(seq)] *)
Definition sum_seq : callable :=
  {| min_args := 1; max_args := Some 1;
     body := fun args =>
       match args with [seq] => py_sum seq | _ => unbound end |}.

(** [lambda a, b=(): a + b] *)
Definition cat : callable :=
  {| min_args := 1; max_args := Some 2;
     body := fun args =>
       match args with
       | [a] => py_add a (VTuple [])
       | [a; b] => py_add a b
       | _ => unbound
       end |}.

(** [lambda: 1] *)
Definition one : callable :=
  {| min_args := 0; max_args := Some 0; body := fun _ => Return (VInt 1) |}.


(** A clock that advances by one unit per reading, and one that was set
    back after its first reading. *)
Definition ticking : clock := fun k => Z.of_nat k.
Definition set_back : clock := fun k => match k with O => 10%Z | _ => 5%Z end.



Fixpoint paired (ks : list kind) : bool :=
  match ks with
  | [] => true
  | KTitle _ :: rest => paired rest
  | KAns _ _ :: KTime :: rest => paired rest
  | _ => false
  end.

(** ** Dictionaries and the two flattening helpers *)

(** The objects of [_squash_dict] and [_unsquash_dict]: a dictionary with
    [str] keys, or an object that has no [items] method, kept with a
    description. *)
Inductive obj : Type :=
| Atom (repr : string)
| Dict (items : list (string * obj)).

(** A dictionary is the list of its items in insertion order; its keys are
    distinct. *)
Definition dict : Type := list (string * obj).

Fixpoint dict_get (k : string) (d : dict) : option obj :=
  match d with
  | [] => None
  | (k', v) :: rest => if String.eqb k' k then Some v else dict_get k rest
  end.

(** [d[k] = v]: the value of a key that is there is replaced where it is,
    a new key goes to the end. *)
Fixpoint dict_set (k : string) (v : obj) (d : dict) : dict :=
  match d with
  | [] => [(k, v)]
  | (k', v') :: rest =>
      if String.eqb k' k then (k', v) :: rest else (k', v') :: dict_set k v rest
  end.

(** [d.update(other)] with the items of [other], and a dictionary built
    from items in their order (a dictionary display or comprehension). *)
Definition dict_update (d : dict) (other : list (string * obj)) : dict :=
  fold_left (fun acc item => dict_set (fst item) (snd item) acc) other d.

Definition dict_of (items : list (string * obj)) : dict := dict_update [] items.

(** [d.setdefault(k, default)]: the value under [k], which is set to
    [default] first when [k] is not there. *)
Definition dict_setdefault (k : string) (default : obj) (d : dict) : obj * dict :=
  match dict_get k d with
  | Some v => (v, d)
  | None => (default, dict_set k default d)
  end.

(** [d.update( *args )] as the builtin takes it: at most one positional
    argument, which is to be a mapping. *)
Definition dict_update_positional (d : dict) (args : list obj) : result dict :=
  match args with
  | [] => Ok d
  | [Dict other] => Ok (dict_update d other)
  | [Atom _] => Exc (TypeError "object is not iterable")
  | _ => Exc (TypeError "update expected at most 1 argument, got 2")
  end.

(** A key of the argument of [_squash_dict]: a [str], or a member of an
    [Enum] whose value is a [str] (line 101 takes the value). *)
Inductive dkey : Type :=
| Name (s : string)
| Member (value : string).

Definition key_str (k : dkey) : string :=
  match k with
  | Name s => s
  | Member value => value
  end.

(** Lines 100-107: one round of the loop of [_squash_dict].
<<
        key = key.value if isinstance(key, Enum) else key
        try:
            ret.update(
                {key + '_' + subkey: subval for subkey, subval in val.items()}
            )
        except AttributeError:
            ret.update(key=val)
>>
    [val.items()] raises [AttributeError] when [val] has no such method.
    [ret.update(key=val)] passes a keyword argument whose name is the word
    key. *)
Definition squash_item (ret : dict) (item : dkey * obj) : dict :=
  let key := key_str (fst item) in
  match snd item with
  | Dict items =>
      dict_update ret
        (dict_of (map (fun sub => ((key ++ "_" ++ fst sub)%string, snd sub)) items))
  | Atom _ => dict_update ret [("key", snd item)]
  end.

(** What one round writes, in order: the names and the values. *)
Definition written (item : dkey * obj) : list (string * obj) :=
  match snd item with
  | Dict items =>
      map (fun sub => ((key_str (fst item) ++ "_" ++ fst sub)%string, snd sub))
          items
  | Atom _ => [("key", snd item)]
  end.

(** Lines 98-108. *)
Definition _squash_dict (d : list (dkey * obj)) : dict :=
  fold_left squash_item d [].

(** [s.split(sep, maxsplit)] for a separator of one character. *)
Fixpoint split (sep : ascii) (maxsplit : nat) (s : string) : list string :=
  match s with
  | EmptyString => [EmptyString]
  | String ch rest =>
      match maxsplit with
      | O => [s]
      | S m =>
          if Ascii.eqb ch sep then EmptyString :: split sep m rest
          else
            match split sep maxsplit rest with
            | [] => [String ch EmptyString]
            | part :: parts => String ch part :: parts
            end
      end
  end.

(** [s.endswith(suffix)] *)
Definition endswith (s suffix : string) : bool :=
  (String.length suffix <=? String.length s)%nat &&
  String.eqb
    (substring (String.length s - String.length suffix) (String.length suffix) s)
    suffix.

Fixpoint count_char (ch : ascii) (s : string) : nat :=
  match s with
  | EmptyString => 0
  | String ch' rest =>
      (if Ascii.eqb ch' ch then 1 else 0) + count_char ch rest
  end.

(** Lines 114-118: one round of the loop of [_unsquash_dict].
<<
        if any(map(lambda subkey: key.endswith('_' + subkey), subdict_keys)):
            newkey, subkey = key.split('_', maxsplit=2)
            ret.setdefault(newkey, {}).update(subkey, val)
        else:
            ret.setdefault(key, {}).update(key, val)
>>
    Unpacking into two names raises [ValueError] unless the list has two
    items.  What [setdefault] returns is the dictionary inside [ret]; after
    an [update] that returned, [ret] would hold the updated one. *)
Definition unpack_error (parts : list string) : exn :=
  match parts with
  | [] | [_] => OtherError "ValueError" "not enough values to unpack (expected 2)"
  | _ => OtherError "ValueError" "too many values to unpack (expected 2)"
  end.

Definition setdefault_update (k : string) (args : list obj) (ret : dict)
  : result dict :=
  match dict_setdefault k (Dict []) ret with
  | (Dict sub, ret') =>
      match dict_update_positional sub args with
      | Ok sub' => Ok (dict_set k (Dict sub') ret')
      | Exc e => Exc e
      end
  | (Atom _, _) => Exc (OtherError "AttributeError" "object has no attribute 'update'")
  end.

Definition unsquash_item (subdict_keys : list string) (ret : dict)
    (item : string * obj) : result dict :=
  let key := fst item in
  let val := snd item in
  if existsb (fun subkey => endswith key ("_" ++ subkey)%string) subdict_keys then
    match split "_" 2 key with
    | [newkey; subkey] => setdefault_update newkey [Atom subkey; val] ret
    | parts => Exc (unpack_error parts)
    end
  else setdefault_update key [Atom key; val] ret.

Fixpoint unsquash_loop (subdict_keys : list string) (ret : dict)
    (items : list (string * obj)) : result dict :=
  match items with
  | [] => Ok ret
  | item :: rest =>
      match unsquash_item subdict_keys ret item with
      | Ok ret' => unsquash_loop subdict_keys ret' rest
      | Exc e => Exc e
      end
  end.

(** Lines 110-119.  [subdict_keys] are the keys of
    [subdict_type.__annotations__]; [enum] is a parameter that the body
    does not use. *)
Definition _unsquash_dict (d : dict) (subdict_keys : list string)
    (enum : list string) : result dict :=
  unsquash_loop subdict_keys [] d.

(** ** One parameter group *)

Section OnePair.

Variables (name : string) (fn : callable) (pg : value) (c : clock) (n : nat).

(** The unpacked call returns: two readings around it, then the two
    lines. *)
Lemma bench_one_unpacked_returns v :
  call fn Unpacked pg = Return v ->
  bench_one name fn pg c n =
  Run (Ok tt) (S (S n))
      [EClock (c n); ECall name Unpacked pg; EClock (c (S n));
       EPrint (Ans name pg v); EPrint (Time (c (S n) - c n))].
Proof.
  intros H. unfold bench_one, timed_call, invoke. rewrite H. reflexivity.
Qed.

(** The unpacked call raises something that is not a [TypeError]: the
    exception leaves [bench_one]. *)
Lemma bench_one_unpacked_raises cls msg :
  call fn Unpacked pg = Raise (OtherError cls msg) ->
  bench_one name fn pg c n =
  Run (Exc (OtherError cls msg)) (S n) [EClock (c n); ECall name Unpacked pg].
Proof.
  intros H. unfold bench_one, timed_call, invoke. rewrite H. reflexivity.
Qed.

(** The unpacked call raises [TypeError] and the call on the whole group
    returns: the clock is read again before the second call. *)
Lemma bench_one_whole_returns msg v :
  call fn Unpacked pg = Raise (TypeError msg) ->
  call fn Whole pg = Return v ->
  bench_one name fn pg c n =
  Run (Ok tt) (S (S (S n)))
      [EClock (c n); ECall name Unpacked pg;
       EClock (c (S n)); ECall name Whole pg; EClock (c (S (S n)));
       EPrint (Ans name pg v); EPrint (Time (c (S (S n)) - c (S n)))].
Proof.
  intros H1 H2. unfold bench_one, timed_call, invoke. rewrite H1, H2.
  reflexivity.
Qed.

(** Both calls raise: the exception of the second one leaves
    [bench_one]. *)
Lemma bench_one_whole_raises msg e :
  call fn Unpacked pg = Raise (TypeError msg) ->
  call fn Whole pg = Raise e ->
  bench_one name fn pg c n =
  Run (Exc e) (S (S n))
      [EClock (c n); ECall name Unpacked pg;
       EClock (c (S n)); ECall name Whole pg].
Proof.
  intros H1 H2. unfold bench_one, timed_call, invoke. rewrite H1, H2.
  reflexivity.
Qed.

End OnePair.

(** By what [verdict] says: the pair prints its two lines, or it raises
    and prints nothing.  Either way it was attempted once. *)
Lemma bench_one_returns name fn pg c n v :
  verdict fn pg = Return v ->
  res (bench_one name fn pg c n) = Ok tt /\
  shape (trace (bench_one name fn pg c n)) = [KAns name pg; KTime] /\
  attempted (trace (bench_one name fn pg c n)) = [(name, pg)].
Proof.
  unfold verdict. intros H.
  destruct (call fn Unpacked pg) as [v0 | [msg | cls msg]] eqn:HU.
  - inversion H; subst.
    rewrite (bench_one_unpacked_returns name fn pg c n v HU). auto.
  - rewrite (bench_one_whole_returns name fn pg c n msg v HU H). auto.
  - discriminate.
Qed.

Lemma bench_one_raises name fn pg c n e :
  verdict fn pg = Raise e ->
  res (bench_one name fn pg c n) = Exc e /\
  shape (trace (bench_one name fn pg c n)) = [] /\
  attempted (trace (bench_one name fn pg c n)) = [(name, pg)].
Proof.
  unfold verdict. intros H.
  destruct (call fn Unpacked pg) as [v0 | [msg | cls msg]] eqn:HU.
  - discriminate.
  - rewrite (bench_one_whole_raises name fn pg c n msg e HU H). auto.
  - inversion H; subst.
    rewrite (bench_one_unpacked_raises name fn pg c n cls msg HU). auto.
Qed.

(** ** Sequencing and loops *)

Lemma for_each_cons_Ok {A : Type} (body : A -> M unit) x xs c n :
  res (body x c n) = Ok tt ->
  for_each body (x :: xs) c n =
  Run (res (for_each body xs c (reads (body x c n))))
      (reads (for_each body xs c (reads (body x c n))))
      (trace (body x c n) ++ trace (for_each body xs c (reads (body x c n)))).
Proof.
  intros H. simpl. unfold bind.
  destruct (body x c n) as [[[] | e] n1 t1]; simpl in *; try discriminate.
  destruct (for_each body xs c n1); reflexivity.
Qed.

Lemma for_each_cons_Exc {A : Type} (body : A -> M unit) x xs c n e :
  res (body x c n) = Exc e ->
  for_each body (x :: xs) c n = body x c n.
Proof.
  intros H. simpl. unfold bind.
  destruct (body x c n) as [[[] | e'] n1 t1]; simpl in *; try discriminate.
  reflexivity.
Qed.

Lemma res_unit_cases (r : run unit) : res r = Ok tt \/ exists e, res r = Exc e.
Proof. destruct r as [[[] | e] ? ?]; simpl; eauto. Qed.


(** A property of traces that holds of no events and of two traces put
    one after the other holds of a loop when it holds of every round. *)
Lemma for_each_trace {A : Type} (P : list event -> Prop)
    (body : A -> M unit) xs c :
  P [] ->
  (forall a b, P a -> P b -> P (a ++ b)) ->
  (forall x n, In x xs -> P (trace (body x c n))) ->
  forall n, P (trace (for_each body xs c n)).
Proof.
  intros Hnil Happ. induction xs as [| x xs IH]; intros Hbody n.
  - exact Hnil.
  - destruct (res_unit_cases (body x c n)) as [H0 | [e0 H0]].
    + rewrite (for_each_cons_Ok body x xs c n H0). simpl.
      apply Happ; [apply Hbody; left; reflexivity |].
      apply IH. intros y m Hy. apply Hbody. right. exact Hy.
    + rewrite (for_each_cons_Exc body x xs c n e0 H0).
      apply Hbody. left. reflexivity.
Qed.

Lemma printed_app evs evs' : printed (evs ++ evs') = printed evs ++ printed evs'.
Proof. apply flat_map_app. Qed.

Lemma shape_app evs evs' : shape (evs ++ evs') = shape evs ++ shape evs'.
Proof. unfold shape. rewrite printed_app. apply map_app. Qed.




Lemma answered_app ks ks' : answered (ks ++ ks') = answered ks ++ answered ks'.
Proof. apply flat_map_app. Qed.

(** The round of one item of [fn_names]: the title, then the inner
    loop. *)
Lemma bench_fn_eq pgs item c n :
  bench_fn pgs item c n =
  Run (res (for_each (bench_one (fst item) (snd item)) pgs c n))
      (reads (for_each (bench_one (fst item) (snd item)) pgs c n))
      (EPrint (Title (fst item)) ::
       trace (for_each (bench_one (fst item) (snd item)) pgs c n)).
Proof.
  unfold bench_fn, bind, print.
  destruct (for_each (bench_one (fst item) (snd item)) pgs c n); reflexivity.
Qed.

(** ** Layouts and prefixes *)

Lemma prefix_nil {A : Type} (l : list A) : prefix [] l.
Proof. exists l. reflexivity. Qed.

Lemma prefix_refl {A : Type} (l : list A) : prefix l l.
Proof. exists []. symmetry. apply app_nil_r. Qed.

Lemma prefix_app {A : Type} (x l l' : list A) :
  prefix l l' -> prefix (x ++ l) (x ++ l').
Proof. intros [rest ->]. exists rest. apply app_assoc. Qed.

Lemma prefix_app_r {A : Type} (l l' k : list A) :
  prefix l l' -> prefix l (l' ++ k).
Proof. intros [rest ->]. exists (rest ++ k). symmetry. apply app_assoc. Qed.

Lemma prefix_flat_map {A B : Type} (f : A -> list B) (l l' : list A) :
  prefix l l' -> prefix (flat_map f l) (flat_map f l').
Proof. intros [rest ->]. exists (flat_map f rest). apply flat_map_app. Qed.



Lemma answered_group_layout name pgs :
  answered (group_layout name pgs) = map (fun pg => (name, pg)) pgs.
Proof. induction pgs as [| pg pgs IH]; simpl; congruence. Qed.

Lemma answered_layout pgs fns : answered (layout pgs fns) = pairs pgs fns.
Proof.
  induction fns as [| [name fn] fns IH]; simpl; auto.
  rewrite answered_app, answered_group_layout, IH. reflexivity.
Qed.

(** ** The inner loop *)


(** Whatever the pairs do, what the inner loop printed is the beginning
    of that layout, and the whole of it when the loop completes. *)
Lemma inner_loop_shape name fn pgs c n :
  prefix (shape (trace (for_each (bench_one name fn) pgs c n)))
         (group_layout name pgs) /\
  (res (for_each (bench_one name fn) pgs c n) = Ok tt ->
   shape (trace (for_each (bench_one name fn) pgs c n)) = group_layout name pgs).
Proof.
  revert n. induction pgs as [| pg pgs IH]; intros n.
  - simpl. split; [apply prefix_nil | reflexivity].
  - destruct (verdict fn pg) as [v | e] eqn:Hv.
    + destruct (bench_one_returns name fn pg c n v Hv) as (R & S & _).
      rewrite (for_each_cons_Ok _ pg pgs c n R). simpl res; simpl trace.
      destruct (IH (reads (bench_one name fn pg c n))) as (P & E).
      rewrite shape_app, S. split.
      * apply (prefix_app [KAns name pg; KTime]). exact P.
      * intros H. rewrite (E H). reflexivity.
    + destruct (bench_one_raises name fn pg c n e Hv) as (R & S & _).
      rewrite (for_each_cons_Exc _ pg pgs c n e R). rewrite S, R. split.
      * apply prefix_nil.
      * discriminate.
Qed.

(** ** The outer loop *)


Lemma outer_loop_shape logger pgs fns c n :
  prefix (shape (trace (bench_compare_multiple logger pgs fns c n)))
         (layout pgs fns) /\
  (res (bench_compare_multiple logger pgs fns c n) = Ok tt ->
   shape (trace (bench_compare_multiple logger pgs fns c n)) = layout pgs fns).
Proof.
  unfold bench_compare_multiple.
  revert n. induction fns as [| item fns IH]; intros n.
  - simpl. split; [apply prefix_nil | reflexivity].
  - destruct (inner_loop_shape (fst item) (snd item) pgs c n) as (P & E).
    destruct (res_unit_cases (bench_fn pgs item c n)) as [RF | [e RF]].
    + rewrite (for_each_cons_Ok _ item fns c n RF). simpl res; simpl trace.
      destruct (IH (reads (bench_fn pgs item c n))) as (P' & E').
      rewrite shape_app. rewrite bench_fn_eq in RF, P', E' |- *.
      simpl in RF. simpl reads in P', E'. simpl trace. simpl reads.
      change (shape (EPrint (Title (fst item)) :: ?t))
        with (KTitle (fst item) :: shape t).
      rewrite (E RF). simpl layout. split.
      * apply (prefix_app (KTitle (fst item) :: group_layout (fst item) pgs)).
        exact P'.
      * intros H. rewrite (E' H). reflexivity.
    + rewrite (for_each_cons_Exc _ item fns c n e RF). rewrite RF.
      rewrite bench_fn_eq. simpl trace.
      change (shape (EPrint (Title (fst item)) :: ?t))
        with (KTitle (fst item) :: shape t).
      split; [| discriminate].
      simpl layout.
      apply (prefix_app [KTitle (fst item)]
                        (shape (trace (for_each (bench_one (fst item) (snd item)) pgs c n)))
                        (group_layout (fst item) pgs ++ layout pgs fns)).
      apply prefix_app_r. exact P.
Qed.

(** ** The logger *)



(** What [Benchtool.__init__] prepares does reach the logger: a callable
    gets the message alone, a [logging.Logger] the severity too, [INFO]
    when none was given. *)
Lemma Benchtool_logger_delivers log_level l c n :
  delivered (trace (Benchtool_logger (Some PlainCallable) log_level l c n)) =
    [(None, l)] /\
  delivered (trace (Benchtool_logger (Some LeveledLogger) log_level l c n)) =
    [(Some (match log_level with Some lv => lv | None => INFO end), l)].
Proof. split; reflexivity. Qed.

(** C1.  The lines of a run are to go to the logger that was passed,
    which gets the message alone when it takes no severity.  Run with a
    callable other than [print] as logger, [lambda: 1] under the name
    [one] and the empty parameter group: the three lines are written by
    [print] to standard output and the logger is handed nothing. *)
Theorem lines_bypass_the_logger :
  printed (trace (bench_compare_multiple PlainCallable [VTuple []]
                    [("one", one)] ticking 0)) =
    [Title "one"; Ans "one" (VTuple []) (VInt 1); Time 1] /\
  delivered (trace (bench_compare_multiple PlainCallable [VTuple []]
                      [("one", one)] ticking 0)) = [].
Proof. split; reflexivity. Qed.

(** ** Empty inputs *)

(** C3, as stated: with no callable the run is to raise a configuration
    error.  It raises nothing. *)
Lemma empty_mapping_raises_nothing :
  ~ exists e,
      res (bench_compare_multiple PlainCallable
             [VTuple [VInt 1; VInt 2]; VTuple [VInt 3; VInt 4]] [] ticking 0)
      = Exc e.
Proof. intros [e H]. discriminate H. Qed.

(** C3, amended.  With an empty mapping of callables the run returns
    normally: it raises no error, reads no clock, calls nothing and prints
    nothing. *)
Theorem empty_mapping_returns logger pgs c n :
  bench_compare_multiple logger pgs [] c n = Run (Ok tt) n [].
Proof. reflexivity. Qed.

(** C10.  With no parameter group the run raises nothing and its only
    events are the titles, one for each callable, in the order of the
    mapping: no call, no answer, no time. *)
Theorem no_groups_titles_only logger fns c n :
  bench_compare_multiple logger [] fns c n =
  Run (Ok tt) n (map (fun item => EPrint (Title (fst item))) fns).
Proof.
  unfold bench_compare_multiple. revert n.
  induction fns as [| item fns IH]; intros n.
  - reflexivity.
  - assert (R : res (bench_fn [] item c n) = Ok tt) by reflexivity.
    rewrite (for_each_cons_Ok _ item fns c n R).
    change (reads (bench_fn [] item c n)) with n.
    rewrite IH. reflexivity.
Qed.

(** ** Counting and order *)




(** C8.  The answers of a run, read as (callable, group) pairs, are the
    beginning of the list that takes the callables in the order of the
    mapping and, for each callable, the groups in the order in which they
    were passed; they are the whole list when the run completes. *)
Theorem records_in_order logger pgs fns c n :
  prefix (answered (shape (trace (bench_compare_multiple logger pgs fns c n))))
         (pairs pgs fns) /\
  (res (bench_compare_multiple logger pgs fns c n) = Ok tt ->
   answered (shape (trace (bench_compare_multiple logger pgs fns c n))) =
     pairs pgs fns).
Proof.
  destruct (outer_loop_shape logger pgs fns c n) as (P & E).
  rewrite <- answered_layout. split.
  - apply prefix_flat_map. exact P.
  - intros H. rewrite (E H). reflexivity.
Qed.

(** ** One callable, one group *)

Lemma singleton_run logger name fn pg c n :
  bench_compare_multiple logger [pg] [(name, fn)] c n =
  Run (res (bench_one name fn pg c n)) (reads (bench_one name fn pg c n))
      (EPrint (Title name) :: trace (bench_one name fn pg c n)).
Proof.
  unfold bench_compare_multiple, bench_fn. simpl. unfold bind, print, ret.
  destruct (bench_one name fn pg c n) as [[[] | e] n1 t1]; simpl;
    rewrite ?app_nil_r; reflexivity.
Qed.

(** C6.  The scenario of [add] and [sum_seq] on (1, 2) and (3, 4): the
    run completes and prints, whatever the clock says and however a float
    is written, the title of [add], its two answers 3 and 7, each followed
    by its time, then the title of [sum_seq] and the same for it. *)
Theorem add_and_sum_seq_scenario logger (float_str : Z -> string) c n :
  res (bench_compare_multiple logger
         [VTuple [VInt 1; VInt 2]; VTuple [VInt 3; VInt 4]]
         [("add", add); ("sum_seq", sum_seq)] c n) = Ok tt /\
  map (format_line float_str)
      (printed (trace (bench_compare_multiple logger
                         [VTuple [VInt 1; VInt 2]; VTuple [VInt 3; VInt 4]]
                         [("add", add); ("sum_seq", sum_seq)] c n))) =
  [ "Testing add:";
    (tab ++ "add((1, 2)) = 3")%string;
    (tab ++ "Time = " ++ float_str (c (1 + n)%nat - c n)%Z)%string;
    (tab ++ "add((3, 4)) = 7")%string;
    (tab ++ "Time = " ++ float_str (c (3 + n)%nat - c (2 + n)%nat)%Z)%string;
    "Testing sum_seq:";
    (tab ++ "sum_seq((1, 2)) = 3")%string;
    (tab ++ "Time = " ++ float_str (c (6 + n)%nat - c (5 + n)%nat)%Z)%string;
    (tab ++ "sum_seq((3, 4)) = 7")%string;
    (tab ++ "Time = " ++ float_str (c (9 + n)%nat - c (8 + n)%nat)%Z)%string ].
Proof. split; reflexivity. Qed.



(** C4, as stated: the call on the whole group is made only after a
    failure to bind, never after a failure inside the callable.  Take
    [lambda a, b=(): a + b] on the group (1, (2,)): the two values bind,
    the addition raises [TypeError] inside the callable, and the callable
    is called again on the whole group; that call returns and its value is
    printed as the answer. *)
Lemma inner_TypeError_is_retried :
  binds cat [VInt 1; VTuple [VInt 2]] = true /\
  raised_inside cat Unpacked (VTuple [VInt 1; VTuple [VInt 2]]) = true /\
  calls (trace (bench_compare_multiple PlainCallable
                  [VTuple [VInt 1; VTuple [VInt 2]]] [("cat", cat)] ticking 0)) =
    [("cat", Unpacked, VTuple [VInt 1; VTuple [VInt 2]]);
     ("cat", Whole, VTuple [VInt 1; VTuple [VInt 2]])] /\
  printed (trace (bench_compare_multiple PlainCallable
                    [VTuple [VInt 1; VTuple [VInt 2]]] [("cat", cat)] ticking 0)) =
    [Title "cat";
     Ans "cat" (VTuple [VInt 1; VTuple [VInt 2]]) (VTuple [VInt 1; VTuple [VInt 2]]);
     Time 1].
Proof. repeat split. Qed.

(** C4, amended.  The call on the whole group is made exactly when the
    unpacked call raises [TypeError], from binding or from inside the
    callable.  Any other exception of the unpacked call is not retried: it
    ends the run, and the pair prints nothing. *)
Theorem fallback_exactly_on_TypeError logger name fn pg c n :
  match call fn Unpacked pg with
  | Return v =>
      calls (trace (bench_compare_multiple logger [pg] [(name, fn)] c n)) =
        [(name, Unpacked, pg)]
  | Raise (TypeError _) =>
      calls (trace (bench_compare_multiple logger [pg] [(name, fn)] c n)) =
        [(name, Unpacked, pg); (name, Whole, pg)]
  | Raise (OtherError cls msg) =>
      calls (trace (bench_compare_multiple logger [pg] [(name, fn)] c n)) =
        [(name, Unpacked, pg)] /\
      res (bench_compare_multiple logger [pg] [(name, fn)] c n) =
        Exc (OtherError cls msg) /\
      printed (trace (bench_compare_multiple logger [pg] [(name, fn)] c n)) =
        [Title name]
  end.
Proof.
  rewrite singleton_run.
  destruct (call fn Unpacked pg) as [v | [msg | cls msg]] eqn:HU.
  - rewrite (bench_one_unpacked_returns name fn pg c n v HU). reflexivity.
  - destruct (call fn Whole pg) as [v | e] eqn:HW.
    + rewrite (bench_one_whole_returns name fn pg c n msg v HU HW). reflexivity.
    + rewrite (bench_one_whole_raises name fn pg c n msg e HU HW). reflexivity.
  - rewrite (bench_one_unpacked_raises name fn pg c n cls msg HU).
    repeat split.
Qed.

(** ** A pair that raises *)




(** ** Times *)

Section Bracketed.

Variables (c : clock) (pgs : list value) (fns : list (string * callable)).

Lemma bracketed_nil : bracketed c pgs fns [].
Proof. intros pre t post H. destruct pre; discriminate H. Qed.

Lemma bracketed_app a b :
  bracketed c pgs fns a -> bracketed c pgs fns b -> bracketed c pgs fns (a ++ b).
Proof.
  intros Ha Hb pre t post H.
  apply app_eq_app in H as [l [[-> H] | [-> H]]].
  - destruct l as [| x l].
    + simpl in H. destruct (Hb [] t post (eq_sym H))
        as (pre' & k & nm & fn & s & pg & v & E & _).
      destruct pre'; discriminate E.
    + injection H as <- ->. exact (Ha pre t l eq_refl).
  - destruct (Hb l t post H) as (pre' & k & nm & fn & s & pg & v & E & Rest).
    exists (a ++ pre'), k, nm, fn, s, pg, v. split; [| exact Rest].
    rewrite E. apply app_assoc.
Qed.

(** A trace without a printed time. *)
Lemma bracketed_no_time evs :
  (forall t, ~ In (EPrint (Time t)) evs) -> bracketed c pgs fns evs.
Proof.
  intros Hno pre t post H. exfalso. apply (Hno t). rewrite H.
  apply in_elt.
Qed.

(** The five events of a call that returns and of its two lines. *)
Lemma bracketed_call k name fn s pg v :
  In (name, fn) fns -> In pg pgs -> call fn s pg = Return v ->
  bracketed c pgs fns
    [EClock (c k); ECall name s pg; EClock (c (S k));
     EPrint (Ans name pg v); EPrint (Time (c (S k) - c k))].
Proof.
  intros Hfn Hpg Hcall pre t post H.
  do 4 (destruct pre as [| ? pre]; [discriminate H | injection H as <- H]).
  destruct pre as [| ? pre].
  - injection H as <- <-.
    exists [], k, name, fn, s, pg, v. auto.
  - injection H as _ H. destruct pre; discriminate H.
Qed.

Lemma bracketed_bench_one name fn pg n :
  In (name, fn) fns -> In pg pgs ->
  bracketed c pgs fns (trace (bench_one name fn pg c n)).
Proof.
  intros Hfn Hpg.
  destruct (call fn Unpacked pg) as [v | [msg | cls msg]] eqn:HU.
  - rewrite (bench_one_unpacked_returns name fn pg c n v HU). simpl trace.
    apply (bracketed_call n name fn); assumption.
  - destruct (call fn Whole pg) as [v | e] eqn:HW.
    + rewrite (bench_one_whole_returns name fn pg c n msg v HU HW). simpl trace.
      apply (bracketed_app [EClock (c n); ECall name Unpacked pg]).
      * apply bracketed_no_time. intros t [H | [H | []]]; discriminate H.
      * apply (bracketed_call (S n) name fn); assumption.
    + rewrite (bench_one_whole_raises name fn pg c n msg e HU HW).
      apply bracketed_no_time.
      intros t [H | [H | [H | [H | []]]]]; discriminate H.
  - rewrite (bench_one_unpacked_raises name fn pg c n cls msg HU).
    apply bracketed_no_time. intros t [H | [H | []]]; discriminate H.
Qed.

Lemma bracketed_run logger n :
  bracketed c pgs fns (trace (bench_compare_multiple logger pgs fns c n)).
Proof.
  unfold bench_compare_multiple.
  apply (for_each_trace (bracketed c pgs fns)).
  - exact bracketed_nil.
  - exact bracketed_app.
  - intros [name fn] m Hitem. rewrite bench_fn_eq. simpl fst; simpl snd.
    simpl trace.
    apply (bracketed_app [EPrint (Title name)]).
    + apply bracketed_no_time. intros t [H | []]; discriminate H.
    + apply (for_each_trace (bracketed c pgs fns)).
      * exact bracketed_nil.
      * exact bracketed_app.
      * intros pg k Hpg. apply bracketed_bench_one; assumption.
Qed.

End Bracketed.

(** C9, as stated: every time that is printed is at least 0.  The times
    are differences of readings of [time.time()], the clock of the system,
    which can be set back between two readings; then the time printed is
    negative. *)
Lemma clock_set_back_negative_time :
  printed (trace (bench_compare_multiple PlainCallable [VTuple []]
                    [("one", one)] set_back 0)) =
    [Title "one"; Ans "one" (VTuple []) (VInt 1); Time (-5)] /\
  ~ (0 <= -5)%Z.
Proof. split; [reflexivity | lia]. Qed.

(** C9, amended.  Every time that is printed is the difference of two
    consecutive readings of the clock; between the two readings the run
    does one thing, a call of a callable on a group, and that call returned
    the answer printed on the line before (a call that raises has no time
    printed).  The time is at least 0 exactly when the second reading is
    not below the first. *)
Theorem time_brackets_the_returning_call logger pgs fns c n pre t post :
  trace (bench_compare_multiple logger pgs fns c n) =
    pre ++ EPrint (Time t) :: post ->
  exists pre' k name fn s pg v,
    pre = pre' ++ [EClock (c k); ECall name s pg; EClock (c (S k));
                   EPrint (Ans name pg v)] /\
    In (name, fn) fns /\ In pg pgs /\
    call fn s pg = Return v /\
    t = (c (S k) - c k)%Z /\
    ((0 <= t)%Z <-> (c k <= c (S k))%Z).
Proof.
  intros H.
  destruct (bracketed_run c pgs fns logger n pre t post H)
    as (pre' & k & name & fn & s & pg & v & E & Hfn & Hpg & Hcall & Ht).
  exists pre', k, name, fn, s, pg, v.
  repeat (split; [assumption |]). subst t. lia.
Qed.

(** The time of [sum_seq] on (1, 2) is that of its second call. *)
Lemma time_brackets_the_returning_call_witness :
  trace (bench_compare_multiple PlainCallable [VTuple [VInt 1; VInt 2]]
           [("sum_seq", sum_seq)] ticking 0) =
    [EPrint (Title "sum_seq");
     EClock 0; ECall "sum_seq" Unpacked (VTuple [VInt 1; VInt 2]);
     EClock 1; ECall "sum_seq" Whole (VTuple [VInt 1; VInt 2]);
     EClock 2; EPrint (Ans "sum_seq" (VTuple [VInt 1; VInt 2]) (VInt 3))] ++
    EPrint (Time 1) :: [] /\
  exists pre' k name fn s pg v,
    [EPrint (Title "sum_seq");
     EClock 0; ECall "sum_seq" Unpacked (VTuple [VInt 1; VInt 2]);
     EClock 1; ECall "sum_seq" Whole (VTuple [VInt 1; VInt 2]);
     EClock 2; EPrint (Ans "sum_seq" (VTuple [VInt 1; VInt 2]) (VInt 3))] =
    pre' ++ [EClock (ticking k); ECall name s pg; EClock (ticking (S k));
             EPrint (Ans name pg v)] /\
    In (name, fn) [("sum_seq", sum_seq)] /\
    In pg [VTuple [VInt 1; VInt 2]] /\
    call fn s pg = Return v /\
    1%Z = (ticking (S k) - ticking k)%Z /\
    ((0 <= 1)%Z <-> (ticking k <= ticking (S k))%Z).
Proof.
  split; [reflexivity |].
  apply (time_brackets_the_returning_call PlainCallable
           [VTuple [VInt 1; VInt 2]] [("sum_seq", sum_seq)] ticking 0)
    with (post := []).
  reflexivity.
Defined.

(** ** Further properties of the loop *)

Lemma shape_title name evs :
  shape (EPrint (Title name) :: evs) = KTitle name :: shape evs.
Proof. reflexivity. Qed.

Lemma bench_fn_shape pgs name fn c n :
  shape (trace (bench_fn pgs (name, fn) c n)) =
  KTitle name :: shape (trace (for_each (bench_one name fn) pgs c n)).
Proof. rewrite bench_fn_eq. reflexivity. Qed.





Lemma paired_app_bounded n :
  forall a, length a <= n ->
  forall b, paired a = true -> paired b = true -> paired (a ++ b) = true.
Proof.
  induction n as [| n IH]; intros a Hlen b Ha Hb.
  - destruct a; [exact Hb | simpl in Hlen; lia].
  - destruct a as [| [nm | nm pg |] a]; simpl in *.
    + exact Hb.
    + apply IH; [lia | exact Ha | exact Hb].
    + destruct a as [| [nm' | nm' pg' |] a]; try discriminate Ha.
      simpl in *. apply IH; [lia | exact Ha | exact Hb].
    + discriminate Ha.
Qed.

Lemma paired_app a b :
  paired a = true -> paired b = true -> paired (a ++ b) = true.
Proof. apply (paired_app_bounded (length a)). apply le_n. Qed.

Lemma paired_counts_bounded n :
  forall ks, length ks <= n -> paired ks = true ->
  length (filter is_ans ks) = length (filter is_time ks).
Proof.
  induction n as [| n IH]; intros ks Hlen Hp.
  - destruct ks; [reflexivity | simpl in Hlen; lia].
  - destruct ks as [| [nm | nm pg |] ks]; simpl in *.
    + reflexivity.
    + apply IH; [lia | exact Hp].
    + destruct ks as [| [nm' | nm' pg' |] ks]; try discriminate Hp.
      simpl in *. f_equal. apply IH; [lia | exact Hp].
    + discriminate Hp.
Qed.

Lemma bench_one_shape name fn pg c n :
  shape (trace (bench_one name fn pg c n)) = [KAns name pg; KTime] \/
  shape (trace (bench_one name fn pg c n)) = [].
Proof.
  destruct (verdict fn pg) as [v | e] eqn:Hv.
  - left. apply (bench_one_returns name fn pg c n v Hv).
  - right. apply (bench_one_raises name fn pg c n e Hv).
Qed.

(** X3.  In every run, also one that an exception ends, the lines come as
    titles and as answers each followed at once by its time: no answer is
    printed without its time, no time without its answer, and there are as
    many of the ones as of the others. *)
Theorem answers_come_with_their_times logger pgs fns c n :
  paired (shape (trace (bench_compare_multiple logger pgs fns c n))) = true /\
  length (filter is_ans
            (shape (trace (bench_compare_multiple logger pgs fns c n)))) =
  length (filter is_time
            (shape (trace (bench_compare_multiple logger pgs fns c n)))).
Proof.
  assert (P : paired (shape (trace (bench_compare_multiple logger pgs fns c n)))
              = true).
  { unfold bench_compare_multiple.
    apply (for_each_trace (fun evs => paired (shape evs) = true)).
    - reflexivity.
    - intros a b Ha Hb. rewrite shape_app. apply paired_app; assumption.
    - intros [name fn] m _. rewrite bench_fn_shape. simpl.
      apply (for_each_trace (fun evs => paired (shape evs) = true)).
      + reflexivity.
      + intros a b Ha Hb. rewrite shape_app. apply paired_app; assumption.
      + intros pg k _.
        destruct (bench_one_shape name fn pg c k) as [-> | ->]; reflexivity. }
  split; [exact P |].
  exact (paired_counts_bounded _ _ (le_n _) P).
Qed.

(** The calls of one round of the outer loop are calls of its callable. *)
Lemma bench_one_calls name fn pg c n nm s p :
  In (ECall nm s p) (trace (bench_one name fn pg c n)) -> nm = name.
Proof.
  destruct (call fn Unpacked pg) as [v | [msg | cls msg]] eqn:HU.
  - rewrite (bench_one_unpacked_returns name fn pg c n v HU). simpl.
    intros [H | [H | [H | [H | [H | []]]]]]; inversion H; reflexivity.
  - destruct (call fn Whole pg) as [v | e] eqn:HW.
    + rewrite (bench_one_whole_returns name fn pg c n msg v HU HW). simpl.
      intros [H | [H | [H | [H | [H | [H | [H | []]]]]]]];
        inversion H; reflexivity.
    + rewrite (bench_one_whole_raises name fn pg c n msg e HU HW). simpl.
      intros [H | [H | [H | [H | []]]]]; inversion H; reflexivity.
  - rewrite (bench_one_unpacked_raises name fn pg c n cls msg HU). simpl.
    intros [H | [H | []]]; inversion H; reflexivity.
Qed.

(** X4.  No callable is called before its title has been printed. *)
Theorem title_before_first_call logger pgs fns c n pre name s pg post :
  trace (bench_compare_multiple logger pgs fns c n) =
    pre ++ ECall name s pg :: post ->
  In (EPrint (Title name)) pre.
Proof.
  revert pre name s pg post. unfold bench_compare_multiple.
  apply (for_each_trace
           (fun evs => forall pre name s pg post,
                evs = pre ++ ECall name s pg :: post ->
                In (EPrint (Title name)) pre)).
  - intros pre name s pg post H. destruct pre; discriminate H.
  - intros a b Ha Hb pre name s pg post H.
    apply app_eq_app in H as [l [[-> H] | [-> H]]].
    + destruct l as [| x l].
      * simpl in H.
        specialize (Hb [] name s pg post (eq_sym H)). destruct Hb.
      * injection H as <- ->. exact (Ha pre name s pg l eq_refl).
    + apply in_or_app. right. exact (Hb l name s pg post H).
  - intros [nm fn] m _ pre name s pg post H.
    rewrite bench_fn_eq in H. simpl in H.
    destruct pre as [| x pre]; [discriminate H |].
    injection H as <- H. left.
    assert (Hin : In (ECall name s pg)
                     (trace (for_each (bench_one nm fn) pgs c m)))
      by (rewrite H; apply in_elt).
    clear H. revert Hin.
    apply (for_each_trace
             (fun evs => In (ECall name s pg) evs ->
                         EPrint (Title nm) = EPrint (Title name))).
    + intros [].
    + intros a b Ha Hb Hin. apply in_app_or in Hin as [Hin | Hin]; auto.
    + intros p k _ Hin.
      rewrite (bench_one_calls nm fn p c k name s pg Hin). reflexivity.
Qed.

Lemma title_before_first_call_witness :
  trace (bench_compare_multiple PlainCallable [VTuple []] [("one", one)]
           ticking 0) =
    [EPrint (Title "one"); EClock 0] ++
    ECall "one" Unpacked (VTuple []) ::
    [EClock 1; EPrint (Ans "one" (VTuple []) (VInt 1)); EPrint (Time 1)] /\
  In (EPrint (Title "one")) [EPrint (Title "one"); EClock 0].
Proof.
  split; [reflexivity |].
  apply (title_before_first_call PlainCallable [VTuple []] [("one", one)]
           ticking 0)
    with (s := Unpacked) (pg := VTuple [])
         (post := [EClock 1; EPrint (Ans "one" (VTuple []) (VInt 1));
                   EPrint (Time 1)]).
  reflexivity.
Defined.






(** X8.  A group that fits the signature of a callable neither unpacked nor
    whole ends the run: both attempts raise [TypeError] at binding, the
    body is never entered, and the second [TypeError] leaves the function
    after the title. *)
Theorem unbindable_group_ends_the_run logger name fn args pgs fns c n :
  binds fn args = false ->
  binds fn [VTuple args] = false ->
  res (bench_compare_multiple logger (VTuple args :: pgs) ((name, fn) :: fns) c n) =
    Exc (TypeError "arguments do not match the signature") /\
  trace (bench_compare_multiple logger (VTuple args :: pgs) ((name, fn) :: fns) c n) =
    [EPrint (Title name);
     EClock (c n); ECall name Unpacked (VTuple args);
     EClock (c (1 + n)%nat); ECall name Whole (VTuple args)].
Proof.
  intros HbU HbW.
  assert (HU : call fn Unpacked (VTuple args) =
               Raise (TypeError "arguments do not match the signature")).
  { unfold call, apply. simpl. rewrite HbU. reflexivity. }
  assert (HW : call fn Whole (VTuple args) =
               Raise (TypeError "arguments do not match the signature")).
  { unfold call, apply. simpl. rewrite HbW. reflexivity. }
  pose proof (bench_one_whole_raises name fn (VTuple args) c n _ _ HU HW) as B.
  assert (I : for_each (bench_one name fn) (VTuple args :: pgs) c n =
              bench_one name fn (VTuple args) c n).
  { apply (for_each_cons_Exc _ (VTuple args) pgs c n
             (TypeError "arguments do not match the signature")).
    rewrite B. reflexivity. }
  assert (F : bench_fn (VTuple args :: pgs) (name, fn) c n =
              Run (Exc (TypeError "arguments do not match the signature"))
                  (S (S n))
                  [EPrint (Title name);
                   EClock (c n); ECall name Unpacked (VTuple args);
                   EClock (c (S n)); ECall name Whole (VTuple args)]).
  { rewrite bench_fn_eq. unfold fst, snd. rewrite I, B. reflexivity. }
  unfold bench_compare_multiple.
  rewrite (for_each_cons_Exc _ (name, fn) fns c n
             (TypeError "arguments do not match the signature"));
    rewrite F; split; reflexivity.
Qed.

(** [add] takes two arguments: (1, 2, 3) fits neither way. *)
Lemma unbindable_group_ends_the_run_witness :
  (binds add [VInt 1; VInt 2; VInt 3] = false /\
   binds add [VTuple [VInt 1; VInt 2; VInt 3]] = false) /\
  res (bench_compare_multiple PlainCallable
         [VTuple [VInt 1; VInt 2; VInt 3]; VTuple [VInt 1; VInt 2]]
         [("add", add); ("sum_seq", sum_seq)] ticking 0) =
    Exc (TypeError "arguments do not match the signature").
Proof.
  split; [split; reflexivity |].
  exact (proj1 (unbindable_group_ends_the_run PlainCallable "add" add
                  [VInt 1; VInt 2; VInt 3] [VTuple [VInt 1; VInt 2]]
                  [("sum_seq", sum_seq)] ticking 0 eq_refl eq_refl)).
Defined.

(** ** Dictionaries *)

Lemma dict_get_app k (d d' : dict) :
  dict_get k (d ++ d') =
  match dict_get k d with Some v => Some v | None => dict_get k d' end.
Proof.
  induction d as [| [k' v'] d IH]; simpl; [reflexivity |].
  destruct (String.eqb k' k); [reflexivity | exact IH].
Qed.

Lemma dict_get_set k k' v d :
  dict_get k (dict_set k' v d) =
  if String.eqb k' k then Some v else dict_get k d.
Proof.
  induction d as [| [k0 v0] d IH]; simpl.
  - destruct (String.eqb k' k); reflexivity.
  - destruct (String.eqb_spec k0 k') as [-> | Hne]; simpl.
    + destruct (String.eqb k' k); reflexivity.
    + destruct (String.eqb_spec k0 k) as [-> | Hne'].
      * destruct (String.eqb_spec k' k) as [-> | _]; [congruence | reflexivity].
      * exact IH.
Qed.

(** After [d.update(other)] a key has the value that [other] gave it
    last, or else the value it had in [d]. *)
Lemma dict_get_update k other : forall d,
  dict_get k (dict_update d other) =
  match dict_get k (rev other) with
  | Some v => Some v
  | None => dict_get k d
  end.
Proof.
  unfold dict_update.
  induction other as [| [k' v'] other IH]; intros d; simpl; [reflexivity |].
  rewrite IH, dict_get_app, dict_get_set. simpl.
  destruct (dict_get k (rev other)); [reflexivity |].
  destruct (String.eqb k' k); reflexivity.
Qed.

Lemma dict_get_In k v (d : dict) : dict_get k d = Some v -> In (k, v) d.
Proof.
  induction d as [| [k' v'] d IH]; simpl; [discriminate |].
  destruct (String.eqb_spec k' k) as [-> | _].
  - intros [= ->]. left. reflexivity.
  - intros H. right. exact (IH H).
Qed.

Lemma In_dict_get k v (d : dict) : In (k, v) d -> dict_get k d <> None.
Proof.
  induction d as [| [k' v'] d IH]; simpl; [intros [] |].
  intros [[= -> ->] | H].
  - rewrite String.eqb_refl. discriminate.
  - destruct (String.eqb k' k); [discriminate | exact (IH H)].
Qed.

Lemma dict_get_not_In k (d : dict) :
  ~ In k (map fst d) -> dict_get k d = None.
Proof.
  induction d as [| [k' v'] d IH]; simpl; [reflexivity |].
  intros H. destruct (String.eqb_spec k' k) as [-> | _].
  - exfalso. apply H. left. reflexivity.
  - apply IH. intros Hin. apply H. right. exact Hin.
Qed.

(** With distinct keys, an item of the list is what the lookup finds. *)
Lemma dict_get_NoDup k v (d : dict) :
  NoDup (map fst d) -> In (k, v) d -> dict_get k d = Some v.
Proof.
  induction d as [| [k' v'] d IH]; simpl; [intros _ [] |].
  intros Hnd [[= -> ->] | Hin].
  - rewrite String.eqb_refl. reflexivity.
  - inversion Hnd as [| ? ? Hnot Hnd']; subst.
    destruct (String.eqb_spec k' k) as [-> | _].
    + exfalso. apply Hnot. apply (in_map fst) in Hin. exact Hin.
    + exact (IH Hnd' Hin).
Qed.

Lemma dict_set_keys x k v d :
  In x (map fst (dict_set k v d)) -> x = k \/ In x (map fst d).
Proof.
  induction d as [| [k0 v0] d IH]; simpl.
  - intros [<- | []]. left. reflexivity.
  - destruct (String.eqb_spec k0 k) as [-> | _]; simpl.
    + intros [<- | H]; [left; reflexivity | right; right; exact H].
    + intros [<- | H]; [right; left; reflexivity |].
      destruct (IH H) as [-> | H']; [left; reflexivity | right; right; exact H'].
Qed.

(** The keys of a dictionary stay distinct. *)
Lemma dict_set_NoDup k v d :
  NoDup (map fst d) -> NoDup (map fst (dict_set k v d)).
Proof.
  induction d as [| [k0 v0] d IH]; simpl; intros Hnd.
  - constructor; [intros [] | constructor].
  - inversion Hnd as [| ? ? Hnot Hnd']; subst.
    destruct (String.eqb_spec k0 k) as [-> | Hne]; simpl.
    + constructor; assumption.
    + constructor; [| exact (IH Hnd')].
      intros Hin. destruct (dict_set_keys _ _ _ _ Hin) as [-> | H];
        [apply Hne; reflexivity | exact (Hnot H)].
Qed.

Lemma dict_update_NoDup other : forall d,
  NoDup (map fst d) -> NoDup (map fst (dict_update d other)).
Proof.
  unfold dict_update.
  induction other as [| [k v] other IH]; intros d Hnd; simpl; [exact Hnd |].
  apply IH. apply dict_set_NoDup. exact Hnd.
Qed.

Lemma dict_get_rev k (d : dict) :
  NoDup (map fst d) -> dict_get k (rev d) = dict_get k d.
Proof.
  intros Hnd.
  assert (Hnd' : NoDup (map fst (rev d))) by (rewrite map_rev; apply NoDup_rev; exact Hnd).
  destruct (dict_get k d) as [v |] eqn:E.
  - apply dict_get_NoDup; [exact Hnd' |].
    apply -> in_rev. apply dict_get_In. exact E.
  - destruct (dict_get k (rev d)) as [v |] eqn:E'; [| reflexivity].
    apply dict_get_In in E'. apply in_rev in E'.
    exfalso. exact (In_dict_get k v d E' E).
Qed.

Lemma dict_of_get k items : dict_get k (dict_of items) = dict_get k (rev items).
Proof.
  unfold dict_of. rewrite dict_get_update. simpl.
  destruct (dict_get k (rev items)); reflexivity.
Qed.

(** What a round of [_squash_dict] leaves under a name is what it wrote
    last under that name, or else what was there. *)
Lemma squash_item_get k ret item :
  dict_get k (squash_item ret item) =
  match dict_get k (rev (written item)) with
  | Some v => Some v
  | None => dict_get k ret
  end.
Proof.
  unfold squash_item, written. destruct item as [k0 [a | items]]; cbn [fst snd].
  - apply dict_get_update.
  - rewrite dict_get_update.
    rewrite dict_get_rev by (apply dict_update_NoDup; constructor).
    rewrite dict_of_get. reflexivity.
Qed.

Lemma squash_loop_get k d : forall ret,
  dict_get k (fold_left squash_item d ret) =
  match dict_get k (rev (flat_map written d)) with
  | Some v => Some v
  | None => dict_get k ret
  end.
Proof.
  induction d as [| item d IH]; intros ret; simpl; [reflexivity |].
  rewrite IH, rev_app_distr, dict_get_app, squash_item_get.
  destruct (dict_get k (rev (flat_map written d))); reflexivity.
Qed.

Lemma squash_get k d :
  dict_get k (_squash_dict d) = dict_get k (rev (flat_map written d)).
Proof.
  unfold _squash_dict. rewrite squash_loop_get. simpl.
  destruct (dict_get k (rev (flat_map written d))); reflexivity.
Qed.

Lemma count_char_append ch (a b : string) :
  count_char ch (a ++ b)%string = count_char ch a + count_char ch b.
Proof. induction a as [| x a IH]; simpl; [reflexivity | rewrite IH; lia]. Qed.

(** A name made of a key, an underscore and a subkey is never the word
    key. *)
Lemma joined_name_not_key (k sub : string) : (k ++ "_" ++ sub)%string <> "key".
Proof.
  intros H. apply (f_equal (count_char "_")) in H.
  rewrite count_char_append in H. simpl in H. lia.
Qed.

Lemma append_inj_r (p a b : string) : (p ++ a)%string = (p ++ b)%string -> a = b.
Proof. induction p as [| x p IH]; simpl; [auto | intros [= H]; exact (IH H)]. Qed.

Lemma NoDup_map_injective {A B : Type} (f : A -> B) (l : list A) :
  (forall x y, f x = f y -> x = y) -> NoDup l -> NoDup (map f l).
Proof.
  intros Hinj. induction 1 as [| x l Hnot Hnd IH]; simpl; constructor.
  - intros Hin. apply in_map_iff in Hin. destruct Hin as (y & E & Hy).
    apply Hinj in E. subst y. exact (Hnot Hy).
  - exact IH.
Qed.

(** X9.  Where the items of the result come from: what is under the name key
    is a value of the argument that has no [items]; anything else is a
    value of a dictionary of the argument, under the key of that
    dictionary, an underscore and its own key. *)
Theorem squash_items_come_from_the_argument d k v :
  dict_get k (_squash_dict d) = Some v ->
  (k = "key" /\ exists k0 a, In (k0, Atom a) d /\ v = Atom a) \/
  (exists k0 items sub,
      In (k0, Dict items) d /\ In (sub, v) items /\
      k = (key_str k0 ++ "_" ++ sub)%string).
Proof.
  rewrite squash_get. intros H.
  apply dict_get_In in H. apply in_rev in H. apply in_flat_map in H.
  destruct H as ([k0 [a | items]] & Hd & Hw); unfold written in Hw;
    cbn [fst snd] in Hw.
  - destruct Hw as [[= <- <-] | []]. left. split; [reflexivity |].
    exists k0, a. split; [exact Hd | reflexivity].
  - apply in_map_iff in Hw. destruct Hw as ([sub v'] & [= <- <-] & Hin).
    right. exists k0, items, sub. auto.
Qed.

Lemma squash_items_come_from_the_argument_witness :
  dict_get "entered_msg"
    (_squash_dict [(Member "entered", Dict [("msg", Atom "Calling"); ("level", Atom "INFO")]);
                   (Name "indent", Atom "tab")]) = Some (Atom "Calling") /\
  ((("entered_msg" = "key") /\
    exists k0 a,
      In (k0, Atom a)
         [(Member "entered", Dict [("msg", Atom "Calling"); ("level", Atom "INFO")]);
          (Name "indent", Atom "tab")] /\ Atom "Calling" = Atom a) \/
   (exists k0 items sub,
      In (k0, Dict items)
         [(Member "entered", Dict [("msg", Atom "Calling"); ("level", Atom "INFO")]);
          (Name "indent", Atom "tab")] /\
      In (sub, Atom "Calling") items /\
      "entered_msg" = (key_str k0 ++ "_" ++ sub)%string)).
Proof.
  split; [reflexivity |].
  apply squash_items_come_from_the_argument. reflexivity.
Defined.

Lemma written_after_has_no k d2 :
  (forall item v, In item d2 -> In (k, v) (written item) -> False) ->
  dict_get k (rev (flat_map written d2)) = None.
Proof.
  intros H. apply dict_get_not_In. intros Hin.
  apply in_map_iff in Hin. destruct Hin as ([k' v] & Hk & Hin).
  simpl in Hk. subst k'. apply in_rev in Hin. apply in_flat_map in Hin.
  destruct Hin as (item & Hd & Hw). exact (H item v Hd Hw).
Qed.

(** X10.  The values without [items] all go under the one name key, whatever
    their own keys are: the last of them is what the result holds there,
    and the keys they had in the argument are not used. *)
Theorem squash_keeps_last_scalar_under_key d1 k0 a d2 :
  (forall k a', ~ In (k, Atom a') d2) ->
  dict_get "key" (_squash_dict (d1 ++ (k0, Atom a) :: d2)) = Some (Atom a).
Proof.
  intros Hlast. rewrite squash_get, flat_map_app. simpl flat_map.
  rewrite rev_app_distr. simpl rev. rewrite <- !app_assoc, !dict_get_app.
  rewrite written_after_has_no.
  - reflexivity.
  - intros [k [a' | items]] v Hd Hw; unfold written in Hw; cbn [fst snd] in Hw.
    + exact (Hlast k a' Hd).
    + apply in_map_iff in Hw. destruct Hw as (sub & [= Hk _] & _).
      exact (joined_name_not_key _ _ Hk).
Qed.

Lemma squash_keeps_last_scalar_under_key_witness :
  (forall k a', ~ In (k, Atom a')
                  [(Member "entered", Dict [("msg", Atom "Calling")])]) /\
  dict_get "key"
    (_squash_dict ([(Name "indent", Atom "tab")] ++
                   (Name "width", Atom "80") ::
                   [(Member "entered", Dict [("msg", Atom "Calling")])])) =
    Some (Atom "80").
Proof.
  assert (H : forall k a', ~ In (k, Atom a')
                             [(Member "entered", Dict [("msg", Atom "Calling")])]).
  { intros k a' [E | []]. discriminate E. }
  split; [exact H |].
  exact (squash_keeps_last_scalar_under_key [(Name "indent", Atom "tab")]
           (Name "width") "80" _ H).
Defined.

(** X11.  A value of a dictionary of the argument is found in the result under
    the key of the dictionary, an underscore and its own key, provided no
    later dictionary of the argument gives the same joined name. *)
Theorem squash_lookup_joined_name d1 k0 items d2 sub v :
  NoDup (map fst items) ->
  In (sub, v) items ->
  (forall k' items' sub' v',
      In (k', Dict items') d2 -> In (sub', v') items' ->
      (key_str k' ++ "_" ++ sub')%string <> (key_str k0 ++ "_" ++ sub)%string) ->
  dict_get (key_str k0 ++ "_" ++ sub)%string
           (_squash_dict (d1 ++ (k0, Dict items) :: d2)) = Some v.
Proof.
  intros Hnd Hin Hlater. rewrite squash_get, flat_map_app. simpl flat_map.
  rewrite !rev_app_distr, <- !app_assoc, !dict_get_app.
  rewrite written_after_has_no.
  - unfold written at 1. cbn [fst snd].
    rewrite (dict_get_NoDup (key_str k0 ++ "_" ++ sub)%string v).
    + reflexivity.
    + rewrite map_rev. apply NoDup_rev.
      replace (map fst
                 (map (fun s => ((key_str k0 ++ "_" ++ fst s)%string, snd s)) items))
        with (map (fun s => (key_str k0 ++ "_" ++ s)%string) (map fst items))
        by (rewrite !map_map; reflexivity).
      apply NoDup_map_injective; [| exact Hnd].
      intros x y H. apply append_inj_r in H. simpl in H.
      injection H as H. exact H.
    + apply -> in_rev.
      apply (in_map (fun s => ((key_str k0 ++ "_" ++ fst s)%string, snd s))
                    items (sub, v) Hin).
  - intros [k [a' | items']] v' Hd Hw; unfold written in Hw; cbn [fst snd] in Hw.
    + destruct Hw as [[= Hk _] | []].
      exact (joined_name_not_key _ _ (eq_sym Hk)).
    + apply in_map_iff in Hw. destruct Hw as ([sub' v''] & [= Hk _] & Hin').
      exact (Hlater k items' sub' v'' Hd Hin' Hk).
Qed.

Lemma squash_lookup_joined_name_witness :
  (NoDup (map fst [("msg", Atom "Calling"); ("level", Atom "INFO")]) /\
   In ("level", Atom "INFO") [("msg", Atom "Calling"); ("level", Atom "INFO")] /\
   (forall k' items' sub' v',
       In (k', Dict items') [(Name "indent", Atom "tab")] ->
       In (sub', v') items' ->
       (key_str k' ++ "_" ++ sub')%string <>
       (key_str (Member "entered") ++ "_" ++ "level")%string)) /\
  dict_get "entered_level"
    (_squash_dict ([(Member "returned", Dict [("msg", Atom "Returned")])] ++
                   (Member "entered", Dict [("msg", Atom "Calling"); ("level", Atom "INFO")]) ::
                   [(Name "indent", Atom "tab")])) = Some (Atom "INFO").
Proof.
  assert (Hnd : NoDup (map fst [("msg", Atom "Calling"); ("level", Atom "INFO")])).
  { simpl. constructor; [intros [E | []]; discriminate E |].
    constructor; [intros [] | constructor]. }
  assert (Hin : In ("level", Atom "INFO")
                   [("msg", Atom "Calling"); ("level", Atom "INFO")])
    by (right; left; reflexivity).
  assert (Hl : forall k' items' sub' v',
             In (k', Dict items') [(Name "indent", Atom "tab")] ->
             In (sub', v') items' ->
             (key_str k' ++ "_" ++ sub')%string <>
             (key_str (Member "entered") ++ "_" ++ "level")%string).
  { intros k' items' sub' v' [E | []]. discriminate E. }
  split; [split; [exact Hnd | split; [exact Hin | exact Hl]] |].
  exact (squash_lookup_joined_name
           [(Member "returned", Dict [("msg", Atom "Returned")])]
           (Member "entered") _ [(Name "indent", Atom "tab")] "level" (Atom "INFO")
           Hnd Hin Hl).
Defined.

(** ** [_unsquash_dict] *)

(** [s.split(sep, maxsplit)] cuts at the first [maxsplit] separators. *)
Lemma split_length sep s : forall maxsplit,
  length (split sep maxsplit s) = 1 + Nat.min maxsplit (count_char sep s).
Proof.
  induction s as [| ch rest IH]; intros maxsplit; simpl.
  - rewrite Nat.min_0_r. reflexivity.
  - destruct maxsplit as [| m]; [reflexivity |].
    destruct (Ascii.eqb ch sep).
    + simpl. rewrite IH. reflexivity.
    + specialize (IH (S m)).
      destruct (split sep (S m) rest) as [| part parts]; [discriminate IH |].
      simpl in *. exact IH.
Qed.

(** [update] with two positional arguments raises, whatever [ret]
    holds; in a new [ret] it is [TypeError]. *)
Lemma setdefault_update_raises k a b ret :
  exists e, setdefault_update k [a; b] ret = Exc e.
Proof.
  unfold setdefault_update, dict_setdefault.
  destruct (dict_get k ret) as [[r | sub] |]; destruct a; simpl; eauto.
Qed.

Lemma setdefault_update_first k a b :
  setdefault_update k [a; b] [] =
  Exc (TypeError "update expected at most 1 argument, got 2").
Proof. destruct a; reflexivity. Qed.

(** On a dictionary that is not empty the first round raises. *)
Lemma unsquash_first_item_raises key val rest subdict_keys enum :
  exists msg,
    _unsquash_dict ((key, val) :: rest) subdict_keys enum =
    Exc (if existsb (fun subkey => endswith key ("_" ++ subkey)%string)
                    subdict_keys
            && negb (count_char "_" key =? 1)%nat
         then OtherError "ValueError" msg
         else TypeError "update expected at most 1 argument, got 2").
Proof.
  unfold _unsquash_dict. simpl unsquash_loop. unfold unsquash_item.
  cbn [fst snd].
  destruct (existsb (fun subkey => endswith key ("_" ++ subkey)%string)
                    subdict_keys); cbn [andb].
  - pose proof (split_length "_" key 2) as L.
    destruct (split "_" 2 key) as [| p1 [| p2 [| p3 parts]]] eqn:E;
      cbn [length] in L.
    + discriminate L.
    + replace (count_char "_" key) with 0 by lia.
      eexists. reflexivity.
    + replace (count_char "_" key) with 1 by lia.
      exists "". reflexivity.
    + destruct (Nat.eqb_spec (count_char "_" key) 1) as [C1 | _]; [lia |].
      eexists. reflexivity.
  - exists "". reflexivity.
Qed.

(** X12.  [_unsquash_dict] returns for the empty dictionary only, and
    returns the empty dictionary then.  Given anything else it raises on
    the first item: [ValueError] from the unpacking when the key ends in an
    underscore and one of the subkeys and does not hold exactly one
    underscore, and otherwise [TypeError] from [update], which is handed
    two positional arguments. *)
Theorem unsquash_returns_only_for_empty d subdict_keys enum :
  match d with
  | [] => _unsquash_dict d subdict_keys enum = Ok []
  | (key, val) :: _ =>
      exists msg,
        _unsquash_dict d subdict_keys enum =
        Exc (if existsb (fun subkey => endswith key ("_" ++ subkey)%string)
                        subdict_keys
                && negb (count_char "_" key =? 1)%nat
             then OtherError "ValueError" msg
             else TypeError "update expected at most 1 argument, got 2")
  end.
Proof.
  destruct d as [| [key val] rest]; [reflexivity |].
  apply unsquash_first_item_raises.
Qed.

Lemma squash_nonempty d k v :
  In (k, v) d -> v <> Dict [] -> _squash_dict d <> [].
Proof.
  intros Hin Hv Hnil.
  assert (W : exists name x, In (name, x) (written (k, v))).
  { unfold written. cbn [fst snd]. destruct v as [a | [| [sub x] items]].
    - exists "key", (Atom a). left. reflexivity.
    - congruence.
    - eexists _, x. left. reflexivity. }
  destruct W as (name & x & Hw).
  assert (G : dict_get name (_squash_dict d) <> None).
  { rewrite squash_get. apply (In_dict_get name x). apply -> in_rev.
    apply in_flat_map. exists (k, v). split; assumption. }
  rewrite Hnil in G. apply G. reflexivity.
Qed.

(** X13.  The two helpers do not undo each other: whenever the argument holds
    anything but empty dictionaries, [_unsquash_dict] raises on what
    [_squash_dict] made of it. *)
Theorem unsquash_of_squash_raises d subdict_keys enum k v :
  In (k, v) d -> v <> Dict [] ->
  exists e, _unsquash_dict (_squash_dict d) subdict_keys enum = Exc e.
Proof.
  intros Hin Hv.
  pose proof (squash_nonempty d k v Hin Hv) as Hne.
  destruct (_squash_dict d) as [| [key val] rest]; [congruence |].
  destruct (unsquash_first_item_raises key val rest subdict_keys enum)
    as (msg & H).
  eexists. exact H.
Qed.

Lemma unsquash_of_squash_raises_witness :
  (In (Member "entered", Dict [("msg", Atom "Calling"); ("level", Atom "INFO")])
      [(Member "entered", Dict [("msg", Atom "Calling"); ("level", Atom "INFO")])] /\
   Dict [("msg", Atom "Calling"); ("level", Atom "INFO")] <> Dict []) /\
  exists e,
    _unsquash_dict
      (_squash_dict
         [(Member "entered", Dict [("msg", Atom "Calling"); ("level", Atom "INFO")])])
      ["msg"; "level"] [] = Exc e.
Proof.
  assert (H1 : In (Member "entered",
                   Dict [("msg", Atom "Calling"); ("level", Atom "INFO")])
                  [(Member "entered",
                    Dict [("msg", Atom "Calling"); ("level", Atom "INFO")])])
    by (left; reflexivity).
  assert (H2 : Dict [("msg", Atom "Calling"); ("level", Atom "INFO")] <> Dict [])
    by discriminate.
  split; [split; [exact H1 | exact H2] |].
  exact (unsquash_of_squash_raises _ ["msg"; "level"] [] _ _ H1 H2).
Defined.
